(** * Virtuoso comprehensive extractor: a shallow embedding

    The development models [src/comprehensive-extractor.py]: the class
    [VirtuosoComprehensiveExtractor] with its methods [make_request],
    [extract_all_data], [try_graphql], [structure_data], [save_results] and
    the entry point [main].

    - JSON payloads are the values Python's [json] module produces
      ([None], [bool], [int], [float], [str], [list], [dict]).
    - [self.results] and [self.session.headers] are threaded explicitly.
    - The network is an oracle answering each request; every request, sleep
      and header mutation is recorded in a chronological log.
    - A Python exception that escapes a method is an explicit [Raise]. *)

From Stdlib Require Import ZArith String List Bool Lia.
From Stdlib Require Import Floats.PrimFloat.
From stdpp Require Import gmap strings list fin_maps pretty.

#[local] Set Warnings "-register-all".
#[local] Open Scope string_scope.
#[local] Open Scope list_scope.
#[local] Open Scope Z_scope.

(** ** Python values and the operations the extractor applies to them *)

Module Py.

(** What [response.json()] can return. *)
Inductive json : Type :=
| JNull
| JBool (b : bool)
| JInt (n : Z)
| JFloat (f : float)
| JStr (s : string)
| JList (l : list json)
| JDict (d : gmap string json).

(** The exceptions the modelled operations raise. *)
Inductive exc : Type :=
| TypeError
| KeyError.

Inductive result (A : Type) : Type :=
| Ok (a : A)
| Raise (e : exc).
Arguments Ok {A} a.
Arguments Raise {A} e.

Definition bind {A B} (r : result A) (k : A -> result B) : result B :=
  match r with
  | Ok a => k a
  | Raise e => Raise e
  end.

Notation "'try!' x := r 'in' k" := (bind r (fun x => k))
  (at level 10, x name, r at level 100, k at level 200).


(** [bool(v)]: the truth value used by [if v] and [x and v]. *)
Definition truthy (v : json) : bool :=
  match v with
  | JNull => false
  | JBool b => b
  | JInt n => negb (n =? 0)
  | JFloat f => negb (PrimFloat.eqb f PrimFloat.zero)
  | JStr s => negb (String.eqb s "")
  | JList l => negb (Nat.eqb (length l) 0)
  | JDict d => negb (Nat.eqb (size d) 0)
  end.

(** [isinstance(v, list)]. *)
Definition isinstance_list (v : json) : bool :=
  match v with
  | JList _ => true
  | _ => false
  end.

(** [needle in s] on two strings. *)
Fixpoint str_contains (needle s : string) : bool :=
  String.prefix needle s
  || match s with
     | EmptyString => false
     | String _ s' => str_contains needle s'
     end.

(** [v == key] for a string [key]. *)
Definition eq_str (key : string) (v : json) : bool :=
  match v with
  | JStr s => String.eqb s key
  | _ => false
  end.

(** [key in v] for a string [key]. *)
Definition contains (key : string) (v : json) : result bool :=
  match v with
  | JDict d => Ok (bool_decide (is_Some (d !! key)))
  | JList l => Ok (existsb (eq_str key) l)
  | JStr s => Ok (str_contains key s)
  | JNull | JBool _ | JInt _ | JFloat _ => Raise TypeError
  end.

(** [v[key]] for a string [key]. *)
Definition getitem (v : json) (key : string) : result json :=
  match v with
  | JDict d =>
      match d !! key with
      | Some x => Ok x
      | None => Raise KeyError
      end
  | _ => Raise TypeError
  end.

(** [len(v)]. *)
Definition len (v : json) : result nat :=
  match v with
  | JList l => Ok (length l)
  | JDict d => Ok (size d)
  | JStr s => Ok (String.length s)
  | JNull | JBool _ | JInt _ | JFloat _ => Raise TypeError
  end.

(** [s.replace(old, new)] for a non-empty [old]: [skip] counts the
    characters of a match that are still to be dropped. *)
Fixpoint replace_from (old new : string) (skip : nat) (s : string) : string :=
  match s with
  | EmptyString => EmptyString
  | String c s' =>
      match skip with
      | S k => replace_from old new k s'
      | O =>
          if String.prefix old s
          then new +:+ replace_from old new (Nat.pred (String.length old)) s'
          else String c (replace_from old new O s')
      end
  end.

Definition str_replace (s old new : string) : string :=
  replace_from old new O s.

(** [range(n)]. *)
Definition range (n : Z) : list Z :=
  map Z.of_nat (seq 0 (Z.to_nat n)).

End Py.

Import Py.

(** ** The extractor's data *)

(** [self.config]. *)
Record Config : Type := {
  base_url : string;
  ui_url : string;
  token : string;
  execution_id : Z;
  journey_id : Z;
  project_id : Z;
  org_id : Z
}.

(** An entry of [self.endpoints]; a failure record has the same three
    fields. *)
Record Endpoint : Type := {
  path : string;
  name : string;
  description : string
}.

(** The dictionary [structured] built by [structure_data]. *)
Record Structured : Type := {
  executionId : Z;
  journeyId : Z;
  projectId : Z;
  checkpoints : json
}.

(** [self.results]. *)
Record Results : Type := {
  timestamp : string;
  config : Config;
  successful_endpoints : list string;
  failed_endpoints : list Endpoint;
  extracted_data : gmap string json;
  structured_data : option Structured
}.

Definition set_extracted_data (ed : gmap string json) (r : Results) : Results :=
  {| timestamp := timestamp r; config := config r;
     successful_endpoints := successful_endpoints r;
     failed_endpoints := failed_endpoints r;
     extracted_data := ed;
     structured_data := structured_data r |}.

Definition set_structured_data (s : option Structured) (r : Results) : Results :=
  {| timestamp := timestamp r; config := config r;
     successful_endpoints := successful_endpoints r;
     failed_endpoints := failed_endpoints r;
     extracted_data := extracted_data r;
     structured_data := s |}.

(** ** [structure_data] *)

(** The priority order for data sources. *)
Definition data_sources : list string :=
  ["checkpoints"; "steps"; "journey_steps"; "testsuite";
   "execution_journey"; "graphql"]%string.

(** [data if isinstance(data, list) else [data]]. *)
Definition as_list (data : json) : json :=
  if isinstance_list data then data else JList [data].

(** The checkpoint synthesised from a [steps] payload. *)
Definition execution_steps (data : json) : json :=
  JDict (<["name" := JStr "Execution Steps"]>
         (<["steps" := as_list data]> ∅)).

(** The [graphql] branch: [Some c] when the branch assigns [c] and breaks,
    [None] when the conditions fail and the loop goes on. *)
Definition graphql_checkpoints (data : json) : result (option json) :=
  try! has_data := contains "data" data in
  if has_data then
    try! d := getitem data "data" in
    try! has_exec := contains "execution" d in
    if has_exec then
      try! exec_data := getitem d "execution" in
      try! has_journey := contains "journey" exec_data in
      if has_journey then
        try! journey := getitem exec_data "journey" in
        try! has_cps := contains "checkpoints" journey in
        if has_cps then
          try! cps := getitem journey "checkpoints" in
          Ok (Some cps)
        else Ok None
      else Ok None
    else Ok None
  else Ok None.

(** The [for source in data_sources] loop; [cps] is the current value of
    [structured['checkpoints']]. *)
Fixpoint select_source (ed : gmap string json) (sources : list string)
    (cps : json) : result json :=
  match sources with
  | [] => Ok cps
  | source :: rest =>
      match ed !! source with
      | None => select_source ed rest cps
      | Some data =>
          if String.eqb source "checkpoints" && truthy data then
            Ok (as_list data)
          else if String.eqb source "steps" && truthy data then
            Ok (JList [execution_steps data])
          else if String.eqb source "graphql" && truthy data then
            try! found := graphql_checkpoints data in
            match found with
            | Some c => Ok c
            | None => select_source ed rest cps
            end
          else select_source ed rest cps
      end
  end.

(** [structure_data]: the results after the call, and the returned
    dictionary or the exception that escaped. The summary line is printed
    with [len(structured['checkpoints'])] after [structured_data] was
    assigned. *)
Definition structure_data (r : Results) : Results * result Structured :=
  let cfg := config r in
  match select_source (extracted_data r) data_sources (JList []) with
  | Raise e => (r, Raise e)
  | Ok cps =>
      let structured :=
        {| executionId := execution_id cfg; journeyId := journey_id cfg;
           projectId := project_id cfg; checkpoints := cps |} in
      if truthy cps then
        let r' := set_structured_data (Some structured) r in
        match len cps with
        | Raise e => (r', Raise e)
        | Ok _ => (r', Ok structured)
        end
      else (r, Ok structured)
  end.

(** ** The transport and the extractor's state *)

Inductive Method : Type :=
| GET
| POST.

(** A request as [self.session] sends it: the session's headers at that
    moment, the JSON body of a POST, and the timeout. *)
Record Request : Type := {
  req_method : Method;
  req_url : string;
  req_headers : gmap string string;
  req_json : option json;
  req_timeout : Z
}.

(** What a [session.get] or [session.post] call does: it returns a response
    with a status code, whose [json()] either parses ([Some]) or raises
    ([None]), or the call itself raises. *)
Inductive Response : Type :=
| Http (status_code : Z) (body : option json)
| Timeout
| ConnectionError
| OtherError.

Inductive Event : Type :=
| ESend (r : Request)
| ESleep (seconds : Z)
| ESetHeader (key value : string).

(** What a persisted file holds: the value given to [json.dump]. *)
Inductive Artifact : Type :=
| RawDump (r : Results)
| StructuredDump (s : Structured).

(** The environment of a run: the server's answer to the [n]-th request
    (counted from 0 over the whole run), [urllib.parse.urljoin], and the two
    clock readings ([datetime.utcnow().isoformat()] in [__init__],
    [datetime.now().strftime(...)] in [save_results]). *)
Record Env : Type := {
  transport : nat -> Request -> Response;
  urljoin : string -> string -> string;
  utcnow_iso : string;
  now_stamp : string
}.

(** The extractor object together with what it did to the outside world. *)
Record State : Type := {
  session_headers : gmap string string;
  results : Results;
  endpoints : list Endpoint;
  sent : nat;
  log : list Event;
  files : list (string * Artifact)
}.

Definition set_results (r : Results) (st : State) : State :=
  {| session_headers := session_headers st; results := r;
     endpoints := endpoints st; sent := sent st; log := log st;
     files := files st |}.

(** [time.sleep(seconds)]. *)
Definition sleep (seconds : Z) (st : State) : State :=
  {| session_headers := session_headers st; results := results st;
     endpoints := endpoints st; sent := sent st;
     log := log st ++ [ESleep seconds]; files := files st |}.

(** [self.session.headers[key] = value]. *)
Definition set_header (key value : string) (st : State) : State :=
  {| session_headers := <[key := value]> (session_headers st);
     results := results st; endpoints := endpoints st; sent := sent st;
     log := log st ++ [ESetHeader key value]; files := files st |}.

(** Sending a request: the oracle answers, the request is logged. *)
Definition send (env : Env) (rq : Request) (st : State) : Response * State :=
  (transport env (sent st) rq,
   {| session_headers := session_headers st; results := results st;
      endpoints := endpoints st; sent := S (sent st);
      log := log st ++ [ESend rq]; files := files st |}).

(** [open(filename, 'w')] followed by [json.dump(value, f, indent=2)];
    the file system is taken to accept the write. *)
Definition write_file (filename : string) (a : Artifact) (st : State) : State :=
  {| session_headers := session_headers st; results := results st;
     endpoints := endpoints st; sent := sent st; log := log st;
     files := files st ++ [(filename, a)] |}.

(** ** [__init__] *)

Definition the_config : Config :=
  {| base_url := "https://api-app2.virtuoso.qa/api";
     ui_url := "https://app2.virtuoso.qa";
     token := "9e141010-eca5-43f5-afb9-20dc6c49833f";
     execution_id := 88715;
     journey_id := 527218;
     project_id := 4889;
     org_id := 1964 |}.

(** [str(n)] for an integer. *)
Definition str (n : Z) : string := pretty n.

(** The headers [__init__] puts on the session; the defaults a fresh
    [requests.Session] brings along are left out. *)
Definition initial_headers (cfg : Config) : gmap string string :=
  <["User-Agent" := "Virtuoso-Comprehensive-Extractor/2.0"]>
  (<["X-Organization-Id" := str (org_id cfg)]>
  (<["Content-Type" := "application/json"]>
  (<["Accept" := "application/json"]>
  (<["Authorization" := "Bearer " +:+ token cfg]> ∅)))).

Definition initial_results (env : Env) (cfg : Config) : Results :=
  {| timestamp := utcnow_iso env; config := cfg;
     successful_endpoints := []; failed_endpoints := [];
     extracted_data := ∅; structured_data := None |}.

Definition mk_endpoint (p n d : string) : Endpoint :=
  {| path := p; name := n; description := d |}.

(** All discovered endpoint patterns. *)
Definition the_endpoints (cfg : Config) : list Endpoint :=
  let e := str (execution_id cfg) in
  let j := str (journey_id cfg) in
  let p := str (project_id cfg) in
  let o := str (org_id cfg) in
  [ mk_endpoint ("/executions/" +:+ e)
      "execution" "Main execution data";
    mk_endpoint ("/executions/" +:+ e +:+ "/journeys/" +:+ j)
      "execution_journey" "Execution journey combination";
    mk_endpoint ("/projects/" +:+ p +:+ "/executions/" +:+ e)
      "project_execution" "Project-scoped execution";
    mk_endpoint ("/projects/" +:+ p +:+ "/testsuites/" +:+ j)
      "testsuite" "Journey as TestSuite";
    mk_endpoint ("/testsuites/" +:+ j)
      "testsuite_direct" "Direct TestSuite access";
    mk_endpoint ("/executions/" +:+ e +:+ "/checkpoints")
      "checkpoints" "Execution checkpoints";
    mk_endpoint ("/executions/" +:+ e +:+ "/steps")
      "steps" "Execution steps";
    mk_endpoint ("/projects/" +:+ p +:+ "/testsuites/" +:+ j +:+ "/steps")
      "journey_steps" "Journey/TestSuite steps";
    mk_endpoint ("/executions/" +:+ e +:+ "/actions")
      "actions" "Execution actions";
    mk_endpoint ("/executions/" +:+ e +:+ "/screenshots")
      "screenshots" "Execution screenshots";
    mk_endpoint ("/executions/" +:+ e +:+ "/logs")
      "logs" "Execution logs";
    mk_endpoint ("/executions/" +:+ e +:+ "/results")
      "results" "Execution results";
    mk_endpoint ("/executions/" +:+ e +:+ "/reports")
      "reports" "Execution reports";
    mk_endpoint ("/projects/" +:+ p +:+ "/testdata/" +:+ j)
      "testdata" "Journey test data";
    mk_endpoint ("/journeys/" +:+ j +:+ "/metadata")
      "metadata" "Journey metadata";
    mk_endpoint
      ("/organizations/" +:+ o +:+ "/projects/" +:+ p +:+ "/executions/" +:+ e)
      "org_execution" "Organization-scoped execution";
    mk_endpoint ("/v2/executions/" +:+ e)
      "v2_execution" "V2 API execution";
    mk_endpoint ("/runs/" +:+ e)
      "run" "Execution as run";
    mk_endpoint ("/test-runs/" +:+ e)
      "test_run" "Execution as test-run" ].

Definition init (env : Env) : State :=
  {| session_headers := initial_headers the_config;
     results := initial_results env the_config;
     endpoints := the_endpoints the_config;
     sent := O; log := []; files := [] |}.

(** ** [make_request] *)

(** [self.session.get(url, timeout=10)] for an endpoint. *)
Definition get_request (env : Env) (e : Endpoint) (st : State) : Request :=
  {| req_method := GET;
     req_url := urljoin env (base_url (config (results st))) (path e);
     req_headers := session_headers st;
     req_json := None;
     req_timeout := 10 |}.

(** The two updates of a success: [successful_endpoints.append(n)] and
    [extracted_data[n] = data]. *)
Definition add_success (n : string) (data : json) (r : Results) : Results :=
  {| timestamp := timestamp r; config := config r;
     successful_endpoints := successful_endpoints r ++ [n];
     failed_endpoints := failed_endpoints r;
     extracted_data := <[n := data]> (extracted_data r);
     structured_data := structured_data r |}.

(** [failed_endpoints.append({'name': ..., 'path': ..., 'description': ...})]. *)
Definition add_failure (e : Endpoint) (r : Results) : Results :=
  {| timestamp := timestamp r; config := config r;
     successful_endpoints := successful_endpoints r;
     failed_endpoints :=
       failed_endpoints r
       ++ [{| path := path e; name := name e; description := description e |}];
     extracted_data := extracted_data r;
     structured_data := structured_data r |}.

(** The success branch of [make_request]. *)
Definition record_success (e : Endpoint) (data : json) (st : State) : State :=
  set_results (add_success (name e) data (results st)) st.

(** What follows the loop: the descriptor is appended to the failures. *)
Definition record_failure (e : Endpoint) (st : State) : State :=
  set_results (add_failure e (results st)) st.

(** How one pass through the loop body ends. *)
Inductive Step : Type :=
| Return (data : json)
| Continue.

(** [if attempt < retry_count - 1: time.sleep(1)]. *)
Definition wait_before_retry (retry_count attempt : Z) (st : State) : State :=
  if attempt <? retry_count - 1 then sleep 1 st else st.

(** The body of [for attempt in range(retry_count)]: the [try] block and its
    three handlers. *)
Definition attempt_body (env : Env) (e : Endpoint) (retry_count attempt : Z)
    (st : State) : State * Step :=
  let '(response, st1) := send env (get_request env e st) st in
  match response with
  | Http status_code body =>
      if status_code =? 200 then
        match body with
        | Some data => (record_success e data st1, Return data)
        | None => (st1, Continue)
        end
      else if status_code =? 401 then
        if attempt =? 0 then
          (set_header "X-Auth-Token" (token (config (results st1))) st1,
           Continue)
        else (wait_before_retry retry_count attempt st1, Continue)
      else if status_code =? 404 then
        (wait_before_retry retry_count attempt st1, Continue)
      else (wait_before_retry retry_count attempt st1, Continue)
  | Timeout => (st1, Continue)
  | ConnectionError => (st1, Continue)
  | OtherError => (st1, Continue)
  end.

Fixpoint attempts (env : Env) (e : Endpoint) (retry_count : Z)
    (todo : list Z) (st : State) : State * json :=
  match todo with
  | [] => (record_failure e st, JNull)
  | attempt :: rest =>
      match attempt_body env e retry_count attempt st with
      | (st', Return data) => (st', data)
      | (st', Continue) => attempts env e retry_count rest st'
      end
  end.

(** [make_request(endpoint, retry_count)]: the state after the call and the
    returned value ([None] is [JNull]). *)
Definition make_request (env : Env) (e : Endpoint) (retry_count : Z)
    (st : State) : State * json :=
  attempts env e retry_count (range retry_count) st.

(** ** [try_graphql] *)

Definition graphql_url (cfg : Config) : string :=
  str_replace (base_url cfg) "/api" "/graphql".

Definition graphql_query : string := "
        query GetExecutionData($executionId: ID!, $journeyId: ID!) {
            execution(id: $executionId) {
                id
                status
                startTime
                endTime
                journey(id: $journeyId) {
                    id
                    name
                    checkpoints {
                        id
                        name
                        steps {
                            id
                            action
                            selector
                            value
                            status
                            duration
                        }
                    }
                }
            }
        }
        ".

Definition graphql_variables (cfg : Config) : json :=
  JDict (<["executionId" := JInt (execution_id cfg)]>
         (<["journeyId" := JInt (journey_id cfg)]> ∅)).

Definition graphql_request (st : State) : Request :=
  let cfg := config (results st) in
  {| req_method := POST;
     req_url := graphql_url cfg;
     req_headers := session_headers st;
     req_json :=
       Some (JDict (<["query" := JStr graphql_query]>
                    (<["variables" := graphql_variables cfg]> ∅)));
     req_timeout := 10 |}.

(** The 200 branch of [try_graphql]: the body is stored under [graphql],
    then the name is appended. *)
Definition record_graphql (data : json) (st : State) : State :=
  set_results (add_success "graphql" data (results st)) st.

Definition try_graphql (env : Env) (st : State) : State :=
  let '(response, st1) := send env (graphql_request st) st in
  match response with
  | Http status_code body =>
      if status_code =? 200 then
        match body with
        | Some data => record_graphql data st1
        | None => st1
        end
      else st1
  | Timeout | ConnectionError | OtherError => st1
  end.

(** ** [extract_all_data] *)

(** [for endpoint in self.endpoints: self.make_request(endpoint)]. *)
Definition sweep (env : Env) (catalog : list Endpoint) (st : State) : State :=
  fold_left (fun s e => fst (make_request env e 3 s)) catalog st.

Definition extract_all_data (env : Env) (st : State) : State :=
  let st1 := sweep env (endpoints st) st in
  if (length (successful_endpoints (results st1)) <? 3)%nat
  then try_graphql env st1
  else st1.

(** ** [save_results] and [main] *)

Definition raw_filename (env : Env) (cfg : Config) : string :=
  "execution_" +:+ str (execution_id cfg) +:+ "_raw_" +:+ now_stamp env
  +:+ ".json".

Definition structured_filename (env : Env) (cfg : Config) : string :=
  "execution_" +:+ str (execution_id cfg) +:+ "_structured_" +:+ now_stamp env
  +:+ ".json".

(** [save_results]: the raw dump, then the structured dump when
    [structured_data] is set; the returned file name. *)
Definition save_results (env : Env) (st : State) : State * string :=
  let r := results st in
  let st1 := write_file (raw_filename env (config r)) (RawDump r) st in
  match structured_data r with
  | Some s =>
      (write_file (structured_filename env (config r)) (StructuredDump s) st1,
       structured_filename env (config r))
  | None => (st1, raw_filename env (config r))
  end.

(** [main]: the argument of [sys.exit] and the final state. The handler of
    [except Exception] exits with 2; [generate_report] only prints. *)
Definition main (env : Env) : Z * State :=
  let st1 := extract_all_data env (init env) in
  match structure_data (results st1) with
  | (r2, Raise _) => (2, set_results r2 st1)
  | (r2, Ok _) =>
      let st2 := set_results r2 st1 in
      let st3 := fst (save_results env st2) in
      match structured_data (results st3) with
      | Some _ => (0, st3)
      | None => (1, st3)
      end
  end.

(** ** Sample inputs *)

(** An environment whose server is [answer]; [urljoin] is given for the
    configured base address and the absolute paths of the catalog. *)
Definition sample_env (answer : nat -> Request -> Response) : Env :=
  {| transport := answer;
     urljoin := fun _ p => "https://api-app2.virtuoso.qa" +:+ p;
     utcnow_iso := "2025-01-01T00:00:00";
     now_stamp := "20250101_000000" |}.

(** A server giving the same answer to every request. *)
Definition always (r : Response) : nat -> Request -> Response :=
  fun _ _ => r.

(** Fresh results holding the payloads [ed]. *)
Definition sample_results (ed : gmap string json) : Results :=
  set_extracted_data ed (initial_results (sample_env (always Timeout)) the_config).

(** The dictionary [structure_data] returns when the checkpoints are [cps]. *)
Definition structured_of (cfg : Config) (cps : json) : Structured :=
  {| executionId := execution_id cfg; journeyId := journey_id cfg;
     projectId := project_id cfg; checkpoints := cps |}.

(** ** Observations on a run *)

Definition is_send (ev : Event) : bool :=
  match ev with
  | ESend _ => true
  | _ => false
  end.

(** The GraphQL probe is the only POST. *)
Definition is_graphql_probe (ev : Event) : bool :=
  match ev with
  | ESend rq =>
      match req_method rq with
      | POST => true
      | GET => false
      end
  | _ => false
  end.

Definition is_header_mutation (ev : Event) : bool :=
  match ev with
  | ESetHeader _ _ => true
  | _ => false
  end.

Definition count (p : Event -> bool) (l : list Event) : nat :=
  length (List.filter p l).

Definition is_401 (resp : Response) : bool :=
  match resp with
  | Http status_code _ => status_code =? 401
  | _ => false
  end.

(** A request that carries the secondary auth header with value [tok];
    other events carry nothing. *)
Definition carries_upgrade (tok : string) (ev : Event) : Prop :=
  match ev with
  | ESend rq => req_headers rq !! "X-Auth-Token" = Some tok
  | _ => True
  end.

(** The invariant of the result aggregate: every successful name has a
    payload, and no failed descriptor's name is among the successful names
    or the payloads. *)
Definition aggregate_invariant (r : Results) : Prop :=
  (forall n, n ∈ successful_endpoints r -> is_Some (extracted_data r !! n))
  /\ (forall f, f ∈ failed_endpoints r ->
        (name f ∉ successful_endpoints r)
        /\ extracted_data r !! name f = None).

(** The credential upgrade is visible in a state: the token is the
    configured one, every request logged after a header mutation carries
    the secondary auth header, and once a mutation is logged the session
    holds the header. *)
Definition upgrade_visible (tok : string) (st : State) : Prop :=
  token (config (results st)) = tok
  /\ (forall (before after : list Event) k v,
        log st = (before ++ ESetHeader k v :: after)%list ->
        Forall (carries_upgrade tok) after)
  /\ (count is_header_mutation (log st) <> O ->
      session_headers st !! "X-Auth-Token" = Some tok).

(** A name no outcome has been recorded for. *)
Definition unrecorded (n : string) (r : Results) : Prop :=
  (n ∉ successful_endpoints r)
  /\ extracted_data r !! n = None
  /\ (n ∉ name <$> failed_endpoints r).

(** Servers used as sample inputs. *)
Definition timeout_then_ok : nat -> Request -> Response :=
  fun n _ =>
    match n with
    | O => Timeout
    | S _ => Http 200 (Some (JDict ∅))
    end.

Definition connection_error_then_ok : nat -> Request -> Response :=
  fun n _ =>
    match n with
    | O => ConnectionError
    | S _ => Http 200 (Some (JDict ∅))
    end.

Definition not_found_then_ok : nat -> Request -> Response :=
  fun n _ =>
    match n with
    | O => Http 404 None
    | S _ => Http 200 (Some (JDict ∅))
    end.


Definition execution_endpoint : Endpoint :=
  mk_endpoint "/executions/88715" "execution" "Main execution data".

(** ** Further observations *)

Definition is_sleep (ev : Event) : bool :=
  match ev with
  | ESleep _ => true
  | _ => false
  end.

(** Every sleep lasts one second and is directly followed by a request. *)
Fixpoint sleeps_followed (l : list Event) : bool :=
  match l with
  | [] => true
  | ESleep seconds :: rest =>
      (seconds =? 1)
      && match rest with
         | ESend _ :: _ => true
         | _ => false
         end
      && sleeps_followed rest
  | _ :: rest => sleeps_followed rest
  end.






(** The payload keys are exactly the successful names. *)
Definition keys_match (r : Results) : Prop :=
  forall n, is_Some (extracted_data r !! n) <-> n ∈ successful_endpoints r.




(** * Proof tactics *)

(** Case analysis on every condition of the goal. *)
Ltac case_ifs :=
  repeat match goal with
         | |- context [if ?b then _ else _] => destruct b
         end.

(** * The normaliser *)

Section Normalizer.

Implicit Types (r : Results) (ed : gmap string json) (c v cps : json).

Lemma truthy_as_list c : truthy c = true -> truthy (as_list c) = true.
Proof. destruct c; simpl; auto. Qed.

Lemma len_as_list c : exists n, len (as_list c) = Ok n.
Proof. destruct c; simpl; eauto. Qed.

Lemma truthy_dict (d : gmap string json) : truthy (JDict d) = true <-> d ≠ ∅.
Proof.
  simpl. rewrite negb_true_iff, Nat.eqb_neq.
  split; intros H E; apply H.
  - now rewrite E, map_size_empty.
  - now apply map_size_empty_iff.
Qed.

(** A non-empty [checkpoints] payload ends the loop at its first pass. *)
Lemma structure_data_checkpoints r c :
  extracted_data r !! "checkpoints" = Some c ->
  truthy c = true ->
  structure_data r =
    (set_structured_data (Some (structured_of (config r) (as_list c))) r,
     Ok (structured_of (config r) (as_list c))).
Proof.
  intros Hc Ht. unfold structure_data, data_sources. simpl select_source.
  rewrite Hc. simpl. rewrite Ht, (truthy_as_list c Ht).
  destruct (len_as_list c) as [n ->]. reflexivity.
Qed.

(** No branch of the loop handles [journey_steps]. *)
Lemma select_source_skip_journey_steps ed v cps :
  select_source (<["journey_steps" := v]> ed) data_sources cps
  = select_source (delete "journey_steps" ed) data_sources cps.
Proof.
  unfold data_sources. simpl.
  rewrite !lookup_insert_eq, !lookup_delete_eq.
  rewrite !lookup_insert_ne, !lookup_delete_ne by discriminate.
  reflexivity.
Qed.

Lemma structure_data_ext r1 r2 :
  config r1 = config r2 ->
  select_source (extracted_data r1) data_sources (JList [])
  = select_source (extracted_data r2) data_sources (JList []) ->
  snd (structure_data r1) = snd (structure_data r2)
  /\ (structured_data r1 = structured_data r2 ->
      structured_data (fst (structure_data r1))
      = structured_data (fst (structure_data r2))).
Proof.
  intros Hcfg Hsel. unfold structure_data. rewrite Hcfg, Hsel. clear Hsel.
  destruct (select_source _ _ _) as [cps|e]; [|now split].
  destruct (truthy cps); [|now split].
  destruct (len cps); now split.
Qed.

(** C1: when both the [checkpoints] and the [steps] payloads are present
    and non-empty, [structure_data] takes the checkpoint list from the
    [checkpoints] payload (the payload itself if it is a list, a
    one-element list holding it otherwise), records it as
    [structured_data], and the [steps] payload has no effect: any other
    [steps] payload gives the same returned structure and the same
    [structured_data]. *)
Theorem C1_checkpoints_before_steps r c s :
  extracted_data r !! "checkpoints" = Some c -> truthy c = true ->
  extracted_data r !! "steps" = Some s -> truthy s = true ->
  structure_data r =
    (set_structured_data (Some (structured_of (config r) (as_list c))) r,
     Ok (structured_of (config r) (as_list c)))
  /\ (forall l, c = JList l -> as_list c = c)
  /\ ((forall l, c <> JList l) -> as_list c = JList [c])
  /\ forall s',
       let r' := set_extracted_data (<["steps" := s']> (extracted_data r)) r in
       snd (structure_data r') = snd (structure_data r)
       /\ structured_data (fst (structure_data r'))
          = structured_data (fst (structure_data r)).
Proof.
  intros Hc Htc Hs Hts.
  split; [now apply structure_data_checkpoints|].
  split; [intros l ->; reflexivity|].
  split; [intros Hnl; destruct c; try reflexivity; now destruct (Hnl l)|].
  intros s' r'.
  assert (Hc' : extracted_data r' !! "checkpoints" = Some c).
  { unfold r'. simpl. now rewrite lookup_insert_ne by discriminate. }
  rewrite (structure_data_checkpoints r c Hc Htc).
  rewrite (structure_data_checkpoints r' c Hc' Htc).
  split; reflexivity.
Qed.

Lemma C1_checkpoints_before_steps_witness :
  snd (structure_data
         (sample_results
            (<["checkpoints" := JList [JDict {["name" := JStr "CP1"]}]]>
             (<["steps" := JList [JInt 1; JInt 2]]> ∅))))
  = Ok (structured_of the_config (JList [JDict {["name" := JStr "CP1"]}])).
Proof.
  pose proof
    (C1_checkpoints_before_steps
       (sample_results
          (<["checkpoints" := JList [JDict {["name" := JStr "CP1"]}]]>
           (<["steps" := JList [JInt 1; JInt 2]]> ∅)))
       (JList [JDict {["name" := JStr "CP1"]}])
       (JList [JInt 1; JInt 2])
       eq_refl eq_refl eq_refl eq_refl) as [H _].
  rewrite H. reflexivity.
Defined.

(** C3, as stated, fails: with [journey_steps] the only source present,
    holding two steps, no checkpoint is synthesised; the checkpoint list
    stays empty and [structured_data] stays unset. *)
Lemma C3_journey_steps_counterexample :
  structure_data
    (sample_results
       (<["journey_steps" := JList [JDict {["id" := JInt 1]};
                                    JDict {["id" := JInt 2]}]]> ∅))
  = (sample_results
       (<["journey_steps" := JList [JDict {["id" := JInt 1]};
                                    JDict {["id" := JInt 2]}]]> ∅),
     Ok (structured_of the_config (JList [])))
  /\ JList []
     <> JList [execution_steps (JList [JDict {["id" := JInt 1]};
                                       JDict {["id" := JInt 2]}])].
Proof. split; [reflexivity | discriminate]. Qed.

(** C3, amended: [journey_steps] has a slot in the priority order but no
    extraction rule. When it is the highest-priority source present, with a
    non-empty payload, [structure_data] skips it: the returned structure and
    [structured_data] are those of the same aggregate without the
    [journey_steps] entry, and when no [graphql] payload is present either,
    the checkpoint list is empty and [structured_data] is left as it was. *)
Theorem C3_journey_steps_skipped r v :
  extracted_data r !! "checkpoints" = None ->
  extracted_data r !! "steps" = None ->
  truthy v = true ->
  let r1 := set_extracted_data (<["journey_steps" := v]> (extracted_data r)) r in
  let r0 := set_extracted_data (delete "journey_steps" (extracted_data r)) r in
  snd (structure_data r1) = snd (structure_data r0)
  /\ structured_data (fst (structure_data r1))
     = structured_data (fst (structure_data r0))
  /\ (extracted_data r !! "graphql" = None ->
      structure_data r1 = (r1, Ok (structured_of (config r) (JList [])))).
Proof.
  intros Hc Hs Hv r1 r0.
  assert (Hsel : select_source (extracted_data r1) data_sources (JList [])
                 = select_source (extracted_data r0) data_sources (JList [])).
  { unfold r1, r0. simpl. apply select_source_skip_journey_steps. }
  destruct (structure_data_ext r1 r0 eq_refl Hsel) as [H1 H2].
  split; [exact H1|]. split; [now apply H2|].
  intros Hg. unfold structure_data. rewrite Hsel.
  unfold r0, data_sources. simpl.
  rewrite !lookup_delete_eq.
  rewrite !lookup_delete_ne by discriminate.
  rewrite Hc, Hs, Hg.
  destruct (extracted_data r !! "testsuite");
    destruct (extracted_data r !! "execution_journey"); reflexivity.
Qed.

Lemma C3_journey_steps_skipped_witness :
  structure_data
    (set_extracted_data (<["journey_steps" := JList [JInt 7]]> ∅)
       (sample_results ∅))
  = (set_extracted_data (<["journey_steps" := JList [JInt 7]]> ∅)
       (sample_results ∅),
     Ok (structured_of the_config (JList []))).
Proof.
  exact (proj2 (proj2 (C3_journey_steps_skipped (sample_results ∅)
                         (JList [JInt 7]) eq_refl eq_refl eq_refl))
           eq_refl).
Defined.

(** A [graphql] payload that is an object without the key [data], or whose
    nested objects lack the next key of the path, is skipped. *)
Lemma graphql_checkpoints_absent_key (d : gmap string json) :
  d !! "data" = None -> graphql_checkpoints (JDict d) = Ok None.
Proof.
  intros H. unfold graphql_checkpoints. simpl. rewrite H.
  rewrite bool_decide_eq_false_2; [reflexivity|].
  intros [x Hx]. discriminate.
Qed.

(** C5: the code faults where the claim promises a skip. With a [graphql]
    payload as the only candidate, [structure_data] raises [TypeError] when
    [data] is null, when [data.execution] is null and when
    [data.execution.journey] is null: the test [key in None] raises. *)
Theorem C5_graphql_null_raises :
  structure_data (sample_results (<["graphql" := JDict {["data" := JNull]}]> ∅))
  = (sample_results (<["graphql" := JDict {["data" := JNull]}]> ∅),
     Raise TypeError)
  /\ structure_data
       (sample_results
          (<["graphql" := JDict {["data" := JDict {["execution" := JNull]}]}]> ∅))
     = (sample_results
          (<["graphql" := JDict {["data" := JDict {["execution" := JNull]}]}]> ∅),
        Raise TypeError)
  /\ structure_data
       (sample_results
          (<["graphql" :=
               JDict {["data" :=
                 JDict {["execution" := JDict {["journey" := JNull]}]}]}]> ∅))
     = (sample_results
          (<["graphql" :=
               JDict {["data" :=
                 JDict {["execution" := JDict {["journey" := JNull]}]}]}]> ∅),
        Raise TypeError).
Proof. repeat split; reflexivity. Qed.

(** C8, as stated, fails for the empty object: it is false in a condition,
    so the [checkpoints] branch is not taken and the checkpoint list stays
    empty instead of holding the object. *)
Lemma C8_empty_object_counterexample :
  structure_data (sample_results (<["checkpoints" := JDict ∅]> ∅))
  = (sample_results (<["checkpoints" := JDict ∅]> ∅),
     Ok (structured_of the_config (JList [])))
  /\ JList [] <> JList [JDict ∅].
Proof. split; [reflexivity | discriminate]. Qed.

(** C8, amended: for every payload stored under [checkpoints] that is a
    single non-empty JSON object, [structure_data] yields the one-element
    checkpoint list whose sole element is that object, and records it as
    [structured_data]. *)
Theorem C8_single_object_wrapped r (d : gmap string json) :
  extracted_data r !! "checkpoints" = Some (JDict d) ->
  d ≠ ∅ ->
  structure_data r =
    (set_structured_data (Some (structured_of (config r) (JList [JDict d]))) r,
     Ok (structured_of (config r) (JList [JDict d]))).
Proof.
  intros Hc Hd.
  exact (structure_data_checkpoints r (JDict d) Hc (proj2 (truthy_dict d) Hd)).
Qed.

Lemma C8_single_object_wrapped_witness :
  snd (structure_data
         (sample_results (<["checkpoints" := JDict {["name" := JStr "CP1"]}]> ∅)))
  = Ok (structured_of the_config (JList [JDict {["name" := JStr "CP1"]}])).
Proof.
  rewrite (C8_single_object_wrapped
             (sample_results (<["checkpoints" := JDict {["name" := JStr "CP1"]}]> ∅))
             {["name" := JStr "CP1"]}).
  - reflexivity.
  - reflexivity.
  - intros E. apply (f_equal (fun m => m !! "name")) in E. discriminate E.
Defined.

End Normalizer.

(** * The fetcher *)

Section Fetcher.

Context (env : Env).
Implicit Types (e : Endpoint) (st : State) (rc attempt : Z) (p : Event -> bool).

Lemma count_app p (l1 l2 : list Event) :
  count p (l1 ++ l2) = (count p l1 + count p l2)%nat.
Proof. unfold count. now rewrite List.filter_app, length_app. Qed.

Lemma range_nonpos rc : rc <= 0 -> range rc = [].
Proof.
  intros H. unfold range. now replace (Z.to_nat rc) with O by lia.
Qed.

Lemma range_pos rc :
  0 < rc -> exists rest, range rc = 0 :: rest /\ Forall (fun a => a <> 0) rest.
Proof.
  intros H. unfold range.
  destruct (Z.to_nat rc) as [|n] eqn:E; [lia|].
  exists (map Z.of_nat (seq 1 n)). split; [reflexivity|].
  apply Forall_forall. intros a Ha.
  apply list_elem_of_In, in_map_iff in Ha. destruct Ha as (k & <- & Hk).
  apply in_seq in Hk. lia.
Qed.

Lemma length_range rc : length (range rc) = Z.to_nat rc.
Proof. unfold range. now rewrite length_map, length_seq. Qed.

(** An attempt whose call raises a timeout or a connection error goes
    straight to the next attempt. *)
Lemma attempt_body_transport_error e rc attempt st :
  transport env (sent st) (get_request env e st) = Timeout
  \/ transport env (sent st) (get_request env e st) = ConnectionError ->
  attempt_body env e rc attempt st
  = (snd (send env (get_request env e st) st), Continue).
Proof. intros [H|H]; unfold attempt_body, send; rewrite H; reflexivity. Qed.

(** C2: the code omits the delay the claim requires. With a server that
    times out once (or refuses the connection once) and then answers 200,
    [make_request] issues the second attempt right after the first, with no
    sleep in between; after an HTTP 404 the same loop does sleep. *)
Theorem C2_no_delay_after_timeout :
  let st := init (sample_env timeout_then_ok) in
  let rq := get_request (sample_env timeout_then_ok) execution_endpoint st in
  log (fst (make_request (sample_env timeout_then_ok) execution_endpoint 3 st))
  = [ESend rq; ESend rq]
  /\ log (fst (make_request (sample_env connection_error_then_ok)
                 execution_endpoint 3 st))
     = [ESend rq; ESend rq]
  /\ log (fst (make_request (sample_env not_found_then_ok)
                 execution_endpoint 3 st))
     = [ESend rq; ESleep 1; ESend rq].
Proof. repeat split; reflexivity. Qed.


(** *** What the loop does to the log *)

Lemma attempt_body_count p e rc attempt st :
  (forall k v, p (ESetHeader k v) = false) ->
  (forall s, p (ESleep s) = false) ->
  count p (log (fst (attempt_body env e rc attempt st)))
  = (count p (log st) + count p [ESend (get_request env e st)])%nat.
Proof.
  intros Hh Hs. unfold attempt_body, send, wait_before_retry.
  destruct (transport env (sent st) (get_request env e st))
    as [c [b|]| | |]; simpl; case_ifs; simpl;
    rewrite ?count_app; unfold count; simpl; rewrite ?Hh, ?Hs; simpl; lia.
Qed.

Lemma attempt_body_probes e rc attempt st :
  count is_graphql_probe (log (fst (attempt_body env e rc attempt st)))
  = count is_graphql_probe (log st).
Proof.
  rewrite attempt_body_count by reflexivity. unfold count. simpl. lia.
Qed.

Lemma attempts_probes e rc (todo : list Z) st :
  count is_graphql_probe (log (fst (attempts env e rc todo st)))
  = count is_graphql_probe (log st).
Proof.
  revert st. induction todo as [|a todo IH]; intros st; simpl; [reflexivity|].
  pose proof (attempt_body_probes e rc a st) as Hb.
  destruct (attempt_body env e rc a st) as [st' [data|]]; simpl in *.
  - exact Hb.
  - now rewrite IH.
Qed.

Lemma sweep_probes (catalog : list Endpoint) st :
  count is_graphql_probe (log (sweep env catalog st))
  = count is_graphql_probe (log st).
Proof.
  revert st. induction catalog as [|e catalog IH]; intros st; simpl;
    [reflexivity|].
  unfold sweep in *. simpl. rewrite IH. apply attempts_probes.
Qed.

Lemma try_graphql_probes st :
  count is_graphql_probe (log (try_graphql env st))
  = S (count is_graphql_probe (log st)).
Proof.
  unfold try_graphql, send.
  destruct (transport env (sent st) (graphql_request st)) as [c [b|]| | |];
    simpl; try destruct (c =? 200); simpl;
    rewrite count_app; unfold count; simpl; lia.
Qed.

(** Normalising and saving send nothing. *)
Lemma main_log :
  log (snd (main env)) = log (extract_all_data env (init env)).
Proof.
  unfold main.
  destruct (structure_data _) as [r2 [s|x]]; simpl; [|reflexivity].
  unfold save_results. simpl.
  destruct (structured_data r2) eqn:E; simpl; rewrite E; reflexivity.
Qed.

(** C4: [extract_all_data] issues the GraphQL probe exactly when fewer than
    three names are in [successful_endpoints] after the sweep over the whole
    catalog, and then issues it once; otherwise it issues none. In a run of
    [main] the log therefore holds one probe in the first case and none in
    the second. *)
Theorem C4_graphql_probe_iff_fewer_than_three :
  (forall st,
     count is_graphql_probe (log (extract_all_data env st))
     = (count is_graphql_probe (log st)
        + if (length (successful_endpoints
                        (results (sweep env (endpoints st) st))) <? 3)%nat
          then 1 else 0)%nat)
  /\ count is_graphql_probe (log (snd (main env)))
     = if (length (successful_endpoints
                     (results (sweep env (endpoints (init env)) (init env))))
           <? 3)%nat
       then 1%nat else 0%nat.
Proof.
  assert (H : forall st,
     count is_graphql_probe (log (extract_all_data env st))
     = (count is_graphql_probe (log st)
        + if (length (successful_endpoints
                        (results (sweep env (endpoints st) st))) <? 3)%nat
          then 1 else 0)%nat).
  { intros st. unfold extract_all_data.
    destruct (_ <? 3)%nat.
    - rewrite try_graphql_probes, sweep_probes. lia.
    - rewrite sweep_probes. lia. }
  split; [exact H|].
  rewrite main_log, H. reflexivity.
Qed.

(** *** The credential upgrade *)

Lemma attempt_body_mutations e rc attempt st :
  count is_header_mutation (log (fst (attempt_body env e rc attempt st)))
  = (count is_header_mutation (log st)
     + if (attempt =? 0)%Z
          && is_401 (transport env (sent st) (get_request env e st))
       then 1 else 0)%nat.
Proof.
  unfold attempt_body, send, wait_before_retry.
  destruct (transport env (sent st) (get_request env e st))
    as [c [b|]| | |]; simpl;
    rewrite ?andb_false_r;
    try (rewrite count_app; unfold count; simpl; lia);
    destruct (c =? 200) eqn:E200; destruct (c =? 401) eqn:E401;
    destruct (c =? 404); destruct (attempt =? 0);
    destruct (attempt <? rc - 1);
    unfold sleep, set_header, record_success, count; simpl;
    rewrite ?List.filter_app, ?length_app; simpl; lia.
Qed.

Lemma attempts_no_mutation e rc (todo : list Z) st :
  Forall (fun a => a <> 0) todo ->
  count is_header_mutation (log (fst (attempts env e rc todo st)))
  = count is_header_mutation (log st).
Proof.
  intros Hall. revert st.
  induction Hall as [|a todo Ha _ IH]; intros st; simpl; [reflexivity|].
  pose proof (attempt_body_mutations e rc a st) as Hb.
  apply Z.eqb_neq in Ha. rewrite Ha in Hb. simpl in Hb.
  destruct (attempt_body env e rc a st) as [st' [data|]]; simpl in *.
  - lia.
  - rewrite IH. lia.
Qed.

(** One call mutates the headers at most once: when its first attempt is
    answered 401. *)
Lemma make_request_mutations e rc st :
  count is_header_mutation (log (fst (make_request env e rc st)))
  = (count is_header_mutation (log st)
     + if (0 <? rc)%Z
          && is_401 (transport env (sent st) (get_request env e st))
       then 1 else 0)%nat.
Proof.
  unfold make_request. destruct (0 <? rc) eqn:Hrc.
  - apply Z.ltb_lt in Hrc. destruct (range_pos rc Hrc) as (rest & -> & Hrest).
    simpl attempts.
    pose proof (attempt_body_mutations e rc 0 st) as Hb. simpl in Hb.
    destruct (attempt_body env e rc 0 st) as [st' [data|]]; simpl in *.
    + exact Hb.
    + rewrite (attempts_no_mutation e rc rest st' Hrest). exact Hb.
  - apply Z.ltb_ge in Hrc. rewrite (range_nonpos rc Hrc). simpl. lia.
Qed.

Lemma split_snoc {A} (l before after : list A) (x y : A) :
  l ++ [y] = before ++ x :: after ->
  (after = [] /\ y = x /\ l = before)
  \/ (exists after', after = after' ++ [y] /\ l = before ++ x :: after').
Proof.
  intros H. destruct after as [|z after _] using rev_ind.
  - left. apply app_inj_tail in H as [-> ->]. auto.
  - right. exists after.
    change (l ++ [y] = before ++ (x :: after) ++ [z]) in H.
    rewrite app_assoc in H.
    apply app_inj_tail in H as [-> ->]. auto.
Qed.

Lemma upgrade_visible_send tok (rq : Request) st :
  req_headers rq = session_headers st ->
  upgrade_visible tok st -> upgrade_visible tok (snd (send env rq st)).
Proof.
  intros Hrq (Htok & Hlog & Hses). split; [exact Htok|]. split.
  - simpl. intros before after k v Heq.
    apply split_snoc in Heq as [(_ & Habs & _)|(after' & -> & Heq)];
      [discriminate|].
    apply Forall_app. split; [now apply (Hlog before after' k v)|].
    apply Forall_cons. split; [|apply Forall_nil; exact I].
    simpl. rewrite Hrq. apply Hses.
    rewrite Heq, count_app. unfold count. simpl. lia.
  - simpl. rewrite count_app. unfold count at 2. simpl.
    rewrite Nat.add_0_r. exact Hses.
Qed.

Lemma upgrade_visible_sleep tok (seconds : Z) st :
  upgrade_visible tok st -> upgrade_visible tok (sleep seconds st).
Proof.
  intros (Htok & Hlog & Hses). split; [exact Htok|]. split.
  - simpl. intros before after k v Heq.
    apply split_snoc in Heq as [(_ & Habs & _)|(after' & -> & Heq)];
      [discriminate|].
    apply Forall_app. split; [now apply (Hlog before after' k v)|].
    apply Forall_cons. split; [exact I|apply Forall_nil; exact I].
  - simpl. rewrite count_app. unfold count at 2. simpl.
    rewrite Nat.add_0_r. exact Hses.
Qed.

Lemma upgrade_visible_set_header tok st :
  upgrade_visible tok st ->
  upgrade_visible tok (set_header "X-Auth-Token" tok st).
Proof.
  intros (Htok & Hlog & Hses). split; [exact Htok|]. split.
  - simpl. intros before after k v Heq.
    apply split_snoc in Heq as [(-> & _ & _)|(after' & -> & Heq)];
      [apply Forall_nil; exact I|].
    apply Forall_app. split; [now apply (Hlog before after' k v)|].
    apply Forall_cons. split; [exact I|apply Forall_nil; exact I].
  - intros _. simpl. apply lookup_insert_eq.
Qed.

Lemma upgrade_visible_set_results tok (r : Results) st :
  config r = config (results st) ->
  upgrade_visible tok st -> upgrade_visible tok (set_results r st).
Proof.
  intros Hcfg (Htok & Hlog & Hses). split; [|split; assumption].
  simpl. now rewrite Hcfg.
Qed.

Lemma attempt_body_visible tok e rc attempt st :
  upgrade_visible tok st ->
  upgrade_visible tok (fst (attempt_body env e rc attempt st)).
Proof.
  intros Hst.
  pose proof (upgrade_visible_send tok (get_request env e st) st eq_refl Hst)
    as H1.
  assert (Htok : token (config (results (snd (send env (get_request env e st) st))))
                 = tok) by apply Hst.
  unfold attempt_body, wait_before_retry.
  destruct (send env (get_request env e st) st) as [resp st1]. simpl in *.
  destruct resp as [c [b|]| | |]; simpl;
    case_ifs; simpl;
    try exact H1;
    try (apply upgrade_visible_sleep; exact H1);
    rewrite Htok; apply upgrade_visible_set_header; exact H1.
Qed.

Lemma attempts_visible tok e rc (todo : list Z) st :
  upgrade_visible tok st ->
  upgrade_visible tok (fst (attempts env e rc todo st)).
Proof.
  revert st. induction todo as [|a todo IH]; intros st Hst; simpl.
  - apply upgrade_visible_set_results; [reflexivity | exact Hst].
  - pose proof (attempt_body_visible tok e rc a st Hst) as Hb.
    destruct (attempt_body env e rc a st) as [st' [data|]]; simpl in *.
    + exact Hb.
    + now apply IH.
Qed.

Lemma sweep_visible tok (catalog : list Endpoint) st :
  upgrade_visible tok st -> upgrade_visible tok (sweep env catalog st).
Proof.
  revert st. induction catalog as [|e catalog IH]; intros st Hst;
    [exact Hst|].
  unfold sweep in *. simpl. apply IH. now apply attempts_visible.
Qed.

Lemma try_graphql_visible tok st :
  upgrade_visible tok st -> upgrade_visible tok (try_graphql env st).
Proof.
  intros Hst.
  pose proof (upgrade_visible_send tok (graphql_request st) st eq_refl Hst)
    as H1.
  unfold try_graphql.
  destruct (send env (graphql_request st) st) as [resp st1]. simpl in *.
  destruct resp as [c [b|]| | |]; simpl; try destruct (c =? 200);
    exact H1.
Qed.

Lemma extract_all_data_visible tok st :
  upgrade_visible tok st -> upgrade_visible tok (extract_all_data env st).
Proof.
  intros Hst. unfold extract_all_data.
  destruct (_ <? 3)%nat.
  - now apply try_graphql_visible, sweep_visible.
  - now apply sweep_visible.
Qed.

Lemma init_visible : upgrade_visible (token the_config) (init env).
Proof.
  split; [reflexivity|]. split.
  - intros before after k v H. destruct before; discriminate H.
  - intros H. now destruct H.
Qed.

(** C7, amended: the header mutation is guarded by the attempt number of
    the current call, not by the run. Each call of [make_request] performs
    it once when its first attempt is answered 401 and not at all
    otherwise, so a run performs it once for every such descriptor. Once
    performed it stays visible: every request logged after a mutation, for
    the same or any later descriptor and for the GraphQL probe, carries the
    secondary auth header with the configured token. *)
Theorem C7_upgrade_per_descriptor_and_visible :
  (forall e rc st,
     count is_header_mutation (log (fst (make_request env e rc st)))
     = (count is_header_mutation (log st)
        + if (0 <? rc)%Z
             && is_401 (transport env (sent st) (get_request env e st))
          then 1 else 0)%nat)
  /\ (forall (before after : list Event) k v,
        log (snd (main env)) = (before ++ ESetHeader k v :: after)%list ->
        Forall (carries_upgrade (token the_config)) after).
Proof.
  split; [exact make_request_mutations|].
  intros before after k v H. rewrite main_log in H.
  destruct (extract_all_data_visible (token the_config) (init env) init_visible)
    as (_ & Hlog & _).
  exact (Hlog before after k v H).
Qed.

(** *** The invariant of the result aggregate *)

Lemma attempt_body_results e rc attempt st :
  match snd (attempt_body env e rc attempt st) with
  | Return data =>
      results (fst (attempt_body env e rc attempt st))
      = add_success (name e) data (results st)
  | Continue => results (fst (attempt_body env e rc attempt st)) = results st
  end.
Proof.
  unfold attempt_body, send, wait_before_retry.
  destruct (transport env (sent st) (get_request env e st))
    as [c [b|]| | |]; simpl;
    case_ifs; reflexivity.
Qed.

(** A call records exactly one outcome for its descriptor. *)
Lemma make_request_results e rc st :
  (exists data,
     results (fst (make_request env e rc st))
     = add_success (name e) data (results st))
  \/ results (fst (make_request env e rc st)) = add_failure e (results st).
Proof.
  unfold make_request. generalize (range rc) as todo. intros todo. revert st.
  induction todo as [|a todo IH]; intros st; simpl.
  - right. reflexivity.
  - pose proof (attempt_body_results e rc a st) as Hb.
    destruct (attempt_body env e rc a st) as [st' [data|]]; simpl in *.
    + left. exists data. exact Hb.
    + rewrite <- Hb. apply IH.
Qed.

Lemma try_graphql_results st :
  results (try_graphql env st) = results st
  \/ exists data,
       results (try_graphql env st) = add_success "graphql" data (results st).
Proof.
  unfold try_graphql, send.
  destruct (transport env (sent st) (graphql_request st)) as [c [b|]| | |];
    simpl; try destruct (c =? 200); simpl; eauto.
Qed.

Lemma aggregate_invariant_success (n : string) (data : json) (r : Results) :
  aggregate_invariant r ->
  n ∉ name <$> failed_endpoints r ->
  aggregate_invariant (add_success n data r).
Proof.
  intros [Hs Hf] Hn. split; simpl.
  - intros m Hm. apply elem_of_app in Hm as [Hm|Hm].
    + destruct (decide (n = m)) as [->|Hne].
      * rewrite lookup_insert_eq. eauto.
      * rewrite lookup_insert_ne by exact Hne. now apply Hs.
    + apply list_elem_of_singleton in Hm as ->.
      rewrite lookup_insert_eq. eauto.
  - intros f Hfin. destruct (Hf f Hfin) as [H1 H2].
    assert (Hne : n <> name f).
    { intros ->. apply Hn. now apply list_elem_of_fmap_2. }
    split.
    + rewrite not_elem_of_app, list_elem_of_singleton. split; [exact H1|].
      congruence.
    + now rewrite lookup_insert_ne.
Qed.

Lemma aggregate_invariant_failure e (r : Results) :
  aggregate_invariant r ->
  name e ∉ successful_endpoints r ->
  extracted_data r !! name e = None ->
  aggregate_invariant (add_failure e r).
Proof.
  intros [Hs Hf] H1 H2. split; simpl; [exact Hs|].
  intros f Hfin. apply elem_of_app in Hfin as [Hfin|Hfin]; [now apply Hf|].
  apply list_elem_of_singleton in Hfin as ->. simpl. auto.
Qed.

Lemma make_request_invariant e rc st :
  aggregate_invariant (results st) ->
  unrecorded (name e) (results st) ->
  aggregate_invariant (results (fst (make_request env e rc st))).
Proof.
  intros Hinv (H1 & H2 & H3).
  destruct (make_request_results e rc st) as [[data ->] | ->].
  - now apply aggregate_invariant_success.
  - now apply aggregate_invariant_failure.
Qed.

Lemma try_graphql_invariant st :
  aggregate_invariant (results st) ->
  "graphql" ∉ name <$> failed_endpoints (results st) ->
  aggregate_invariant (results (try_graphql env st)).
Proof.
  intros Hinv Hg.
  destruct (try_graphql_results st) as [-> | [data ->]]; [exact Hinv|].
  now apply aggregate_invariant_success.
Qed.

Lemma make_request_unrecorded e rc st (n : string) :
  n <> name e ->
  unrecorded n (results st) ->
  unrecorded n (results (fst (make_request env e rc st))).
Proof.
  intros Hne (H1 & H2 & H3).
  destruct (make_request_results e rc st) as [[data ->] | ->];
    unfold unrecorded; simpl.
  - rewrite not_elem_of_app, list_elem_of_singleton.
    rewrite lookup_insert_ne by congruence. auto.
  - rewrite fmap_app, not_elem_of_app. simpl.
    rewrite list_elem_of_singleton. auto.
Qed.

Lemma sweep_unrecorded (catalog : list Endpoint) st (n : string) :
  n ∉ name <$> catalog ->
  unrecorded n (results st) ->
  unrecorded n (results (sweep env catalog st)).
Proof.
  revert st. induction catalog as [|e catalog IH]; intros st Hn Hu;
    [exact Hu|].
  simpl in Hn. apply not_elem_of_cons in Hn as [Hne Hn].
  unfold sweep in *. simpl. apply IH; [exact Hn|].
  now apply make_request_unrecorded.
Qed.

Lemma sweep_invariant (catalog : list Endpoint) st :
  NoDup (name <$> catalog) ->
  (forall e, e ∈ catalog -> unrecorded (name e) (results st)) ->
  aggregate_invariant (results st) ->
  aggregate_invariant (results (sweep env catalog st)).
Proof.
  revert st. induction catalog as [|e catalog IH]; intros st Hnd Hfresh Hinv;
    [exact Hinv|].
  simpl in Hnd. apply NoDup_cons in Hnd as [He Hnd].
  unfold sweep in *. simpl. apply IH; [exact Hnd| |].
  - intros e' He'. apply make_request_unrecorded.
    + intros Heq. apply He. rewrite <- Heq. now apply list_elem_of_fmap_2.
    + apply Hfresh. now apply elem_of_cons; right.
  - apply make_request_invariant; [exact Hinv|].
    apply Hfresh. now apply elem_of_cons; left.
Qed.

Lemma extract_all_data_invariant st :
  NoDup (name <$> endpoints st) ->
  (forall e, e ∈ endpoints st -> unrecorded (name e) (results st)) ->
  "graphql" ∉ name <$> endpoints st ->
  unrecorded "graphql" (results st) ->
  aggregate_invariant (results st) ->
  aggregate_invariant (results (extract_all_data env st)).
Proof.
  intros Hnd Hfresh Hg Hgu Hinv. unfold extract_all_data.
  pose proof (sweep_invariant (endpoints st) st Hnd Hfresh Hinv) as Hsw.
  destruct (_ <? 3)%nat; [|exact Hsw].
  apply try_graphql_invariant; [exact Hsw|].
  now apply (sweep_unrecorded (endpoints st) st "graphql" Hg Hgu).
Qed.

Lemma init_catalog :
  NoDup (name <$> endpoints (init env))
  /\ "graphql" ∉ name <$> endpoints (init env).
Proof. split; compute_done. Qed.

Lemma init_unrecorded (n : string) : unrecorded n (results (init env)).
Proof.
  split; [|split]; simpl;
    [apply not_elem_of_nil | apply lookup_empty | apply not_elem_of_nil].
Qed.

Lemma init_invariant : aggregate_invariant (results (init env)).
Proof.
  split; simpl; intros x Hx; now apply not_elem_of_nil in Hx.
Qed.

(** C6: in a run, after each descriptor of the catalog has been processed
    and after the optional GraphQL probe, every name in
    [successful_endpoints] has an entry in [extracted_data] and no name in
    [failed_endpoints] occurs in [successful_endpoints] or in
    [extracted_data]. Each appended outcome preserves this: a call of
    [make_request] for a descriptor with no recorded outcome, and the
    GraphQL probe as long as no failure is recorded under its name. *)
Theorem C6_aggregate_invariant :
  (forall k,
     aggregate_invariant
       (results (sweep env (take k (endpoints (init env))) (init env))))
  /\ aggregate_invariant (results (extract_all_data env (init env)))
  /\ (forall e rc st,
        aggregate_invariant (results st) ->
        unrecorded (name e) (results st) ->
        aggregate_invariant (results (fst (make_request env e rc st))))
  /\ (forall st,
        aggregate_invariant (results st) ->
        "graphql" ∉ name <$> failed_endpoints (results st) ->
        aggregate_invariant (results (try_graphql env st))).
Proof.
  destruct init_catalog as [Hnd Hg].
  split; [|split; [|split]].
  - intros k. apply sweep_invariant.
    + rewrite fmap_take.
      exact (sublist_NoDup _ _ Hnd (sublist_take _ k)).
    + intros e _. apply init_unrecorded.
    + apply init_invariant.
  - apply extract_all_data_invariant;
      auto using init_unrecorded, init_invariant.
  - exact make_request_invariant.
  - exact try_graphql_invariant.
Qed.

(** *** Persistence *)









End Fetcher.

(** * Sample runs *)


Lemma C6_aggregate_invariant_witness :
  aggregate_invariant
    (results (fst (make_request (sample_env (always (Http 404 None)))
                     execution_endpoint 3
                     (init (sample_env (always (Http 404 None))))))).
Proof.
  destruct (C6_aggregate_invariant (sample_env (always (Http 404 None))))
    as (_ & _ & H & _).
  apply H.
  - split; simpl; intros x Hx; inversion Hx.
  - split; [|split]; simpl.
    + intros Hx; inversion Hx.
    + reflexivity.
    + intros Hx; inversion Hx.
Defined.

(** C7, as stated, fails: when every request is answered 401 the header is
    set once for each of the 19 descriptors of the catalog, and when none is
    answered 401 it is never set. *)
Lemma C7_once_per_run_counterexample :
  count is_header_mutation
    (log (snd (main (sample_env (always (Http 401 None)))))) = 19%nat
  /\ count is_header_mutation
       (log (snd (main (sample_env (always (Http 404 None)))))) = 0%nat.
Proof. split; vm_compute; reflexivity. Qed.

Lemma C7_upgrade_per_descriptor_and_visible_witness :
  Forall (carries_upgrade (token the_config))
    (drop 2 (log (snd (main (sample_env (always (Http 401 None))))))).
Proof.
  apply (proj2 (C7_upgrade_per_descriptor_and_visible
                  (sample_env (always (Http 401 None))))
           (take 1 (log (snd (main (sample_env (always (Http 401 None)))))))
           (drop 2 (log (snd (main (sample_env (always (Http 401 None)))))))
           "X-Auth-Token" (token the_config)).
  vm_compute. reflexivity.
Defined.



(** * Further properties of the fetcher *)

Section FetcherBounds.

Context (env : Env).
Implicit Types (e : Endpoint) (st : State) (rc attempt : Z).

Lemma attempt_body_sends e rc attempt st :
  count is_send (log (fst (attempt_body env e rc attempt st)))
  = S (count is_send (log st)).
Proof.
  rewrite attempt_body_count by reflexivity. unfold count. simpl. lia.
Qed.

Lemma attempts_sends e rc (todo : list Z) st :
  (count is_send (log st) + Nat.min 1 (length todo)
   <= count is_send (log (fst (attempts env e rc todo st))))%nat
  /\ (count is_send (log (fst (attempts env e rc todo st)))
      <= count is_send (log st) + length todo)%nat.
Proof.
  revert st. induction todo as [|a todo IH]; intros st; simpl; [lia|].
  pose proof (attempt_body_sends e rc a st) as Hb.
  destruct (attempt_body env e rc a st) as [st' [data|]]; simpl in *.
  - lia.
  - specialize (IH st'). lia.
Qed.


(** The value returned by the loop is the payload it stored, or [None]
    after a recorded failure. *)
Lemma attempts_outcome e rc (todo : list Z) st :
  (exists data,
     snd (attempts env e rc todo st) = data
     /\ results (fst (attempts env e rc todo st))
        = add_success (name e) data (results st))
  \/ (snd (attempts env e rc todo st) = JNull
      /\ results (fst (attempts env e rc todo st))
         = add_failure e (results st)).
Proof.
  revert st. induction todo as [|a todo IH]; intros st; simpl.
  - right. split; reflexivity.
  - pose proof (attempt_body_results env e rc a st) as Hb.
    destruct (attempt_body env e rc a st) as [st' [data|]]; simpl in *.
    + left. exists data. split; [reflexivity | exact Hb].
    + rewrite <- Hb. apply IH.
Qed.

(** X2: a call of [make_request] has one of two outcomes. Either it returns
    a payload, which is then the entry of [extracted_data] under the
    descriptor's name, with the name appended to [successful_endpoints] and
    the failures unchanged; or it returns [None], the descriptor is appended
    to [failed_endpoints], and names and payloads are unchanged. Entries
    under other names are never touched. *)
Theorem X2_make_request_outcome e rc st :
  let st' := fst (make_request env e rc st) in
  ((exists data,
      snd (make_request env e rc st) = data
      /\ extracted_data (results st') !! name e = Some data
      /\ successful_endpoints (results st')
         = successful_endpoints (results st) ++ [name e]
      /\ failed_endpoints (results st') = failed_endpoints (results st))
   \/ (snd (make_request env e rc st) = JNull
       /\ failed_endpoints (results st') = failed_endpoints (results st) ++ [e]
       /\ successful_endpoints (results st')
          = successful_endpoints (results st)
       /\ extracted_data (results st') = extracted_data (results st)))
  /\ forall n, n <> name e ->
       extracted_data (results st') !! n = extracted_data (results st) !! n.
Proof.
  intros st'. unfold st', make_request.
  destruct (attempts_outcome e rc (range rc) st)
    as [(data & Hret & ->) | (Hret & ->)]; simpl; split.
  - left. exists data. rewrite lookup_insert_eq. auto.
  - intros n Hn. now rewrite lookup_insert_ne by congruence.
  - right. destruct e. auto.
  - reflexivity.
Qed.

End FetcherBounds.


Lemma X2_make_request_outcome_witness :
  extracted_data
    (results (fst (make_request (sample_env (always (Http 404 None)))
                     execution_endpoint 3
                     (init (sample_env (always (Http 404 None))))))) !! "steps"
  = extracted_data (results (init (sample_env (always (Http 404 None)))))
      !! "steps".
Proof.
  apply (proj2 (X2_make_request_outcome (sample_env (always (Http 404 None)))
                  execution_endpoint 3
                  (init (sample_env (always (Http 404 None)))))).
  discriminate.
Defined.

Section FetcherLog.

Context (env : Env).
Implicit Types (e : Endpoint) (st : State) (rc attempt : Z).

(** What one pass of the loop appends to the log: the request, then
    nothing, or one sleep of a second when another attempt follows and the
    pass did not return, or one header mutation. *)
Lemma attempt_body_shape e rc attempt st :
  exists tail,
    log (fst (attempt_body env e rc attempt st))
    = log st ++ ESend (get_request env e st) :: tail
    /\ (tail = []
        \/ (tail = [ESleep 1] /\ attempt < rc - 1
            /\ snd (attempt_body env e rc attempt st) = Continue)
        \/ exists key value, tail = [ESetHeader key value]).
Proof.
  unfold attempt_body, send, wait_before_retry.
  destruct (transport env (sent st) (get_request env e st))
    as [c [b|]| | |]; simpl;
    try (exists []; split; [reflexivity | now left]);
    destruct (c =? 200); simpl;
    try (exists []; split; [reflexivity | now left]);
    destruct (c =? 401); destruct (attempt =? 0);
    destruct (c =? 404); destruct (attempt <? rc - 1) eqn:Hlt; simpl;
    rewrite <- ?app_assoc; simpl;
    try (exists []; split; [now rewrite ?app_nil_r | now left]);
    try (eexists [ESetHeader _ _]; split; [reflexivity | right; right; eauto]);
    (exists [ESleep 1]; split; [reflexivity |]; right; left;
     repeat split; lia).
Qed.

Lemma attempts_log e rc (todo : list Z) st :
  exists new,
    log (fst (attempts env e rc todo st)) = log st ++ new
    /\ (todo <> [] -> exists tail, new = ESend (get_request env e st) :: tail).
Proof.
  revert st. induction todo as [|a todo IH]; intros st; simpl.
  - exists []. split; [now rewrite app_nil_r | congruence].
  - destruct (attempt_body_shape e rc a st) as (tail & Hlog & _).
    destruct (attempt_body env e rc a st) as [st' [data|]]; simpl in *.
    + exists (ESend (get_request env e st) :: tail). eauto.
    + destruct (IH st') as (new & Hnew & _).
      exists (ESend (get_request env e st) :: tail ++ new). split; [|eauto].
      rewrite Hnew, Hlog, <- app_assoc. reflexivity.
Qed.

Lemma range_two rc :
  2 <= rc -> exists rest, range rc = 0 :: 1 :: rest.
Proof.
  intros H. unfold range.
  destruct (Z.to_nat rc) as [|[|n]] eqn:E; [lia|lia|].
  exists (map Z.of_nat (seq 2 n)). reflexivity.
Qed.

(** X3: when the first attempt of a call is answered 401 and a second
    attempt is allowed, [make_request] sets the secondary auth header and
    sends the second request right away, with no sleep in between; that
    request goes to the same address and carries the new header. *)
Theorem X3_immediate_retry_after_first_401 e rc st (body : option json) :
  transport env (sent st) (get_request env e st) = Http 401 body ->
  2 <= rc ->
  exists rq tail,
    log (fst (make_request env e rc st))
    = log st
      ++ ESend (get_request env e st)
         :: ESetHeader "X-Auth-Token" (token (config (results st)))
         :: ESend rq :: tail
    /\ req_method rq = GET
    /\ req_url rq = req_url (get_request env e st)
    /\ req_headers rq
       = <["X-Auth-Token" := token (config (results st))]> (session_headers st).
Proof.
  intros H401 Hrc. destruct (range_two rc Hrc) as [rest Hrange].
  unfold make_request. rewrite Hrange.
  change (attempts env e rc (0 :: 1 :: rest) st)
    with (match attempt_body env e rc 0 st with
          | (st', Return data) => (st', data)
          | (st', Continue) => attempts env e rc (1 :: rest) st'
          end).
  assert (Hfirst : attempt_body env e rc 0 st
                   = (set_header "X-Auth-Token" (token (config (results st)))
                        (snd (send env (get_request env e st) st)), Continue)).
  { unfold attempt_body, send. rewrite H401. reflexivity. }
  rewrite Hfirst.
  destruct (attempts_log e rc (1 :: rest)
              (set_header "X-Auth-Token" (token (config (results st)))
                 (snd (send env (get_request env e st) st))))
    as (new & Hlog & Hhead).
  destruct Hhead as [tail ->]; [discriminate|].
  exists (get_request env e
            (set_header "X-Auth-Token" (token (config (results st)))
               (snd (send env (get_request env e st) st)))), tail.
  split; [|repeat split].
  rewrite Hlog. simpl. rewrite <- !app_assoc. reflexivity.
Qed.

(** The attempts [k], [k+1], ..., [retry_count - 1]: every sleep they log
    is followed by the request of the next attempt. *)
Lemma attempts_sleeps_followed e rc (m k : nat) st :
  Z.of_nat (k + m) = rc ->
  exists new,
    log (fst (attempts env e rc (map Z.of_nat (seq k m)) st)) = log st ++ new
    /\ sleeps_followed new = true
    /\ (m <> O -> exists rq tail, new = ESend rq :: tail).
Proof.
  revert k st. induction m as [|m IH]; intros k st Hrc; simpl.
  - exists []. split; [now rewrite app_nil_r|]. split; [reflexivity|lia].
  - destruct (attempt_body_shape e rc (Z.of_nat k) st) as (tail & Hlog & Htail).
    destruct (attempt_body env e rc (Z.of_nat k) st) as [st' step] eqn:Hb.
    simpl in *.
    destruct step as [data|].
    + exists (ESend (get_request env e st) :: tail).
      split; [exact Hlog|]. split; [|eauto].
      destruct Htail as [->|[(_ & _ & Habs)|(key & value & ->)]];
        [reflexivity | discriminate | reflexivity].
    + destruct (IH (S k) st') as (new & Hnew & Hok & Hhead); [lia|].
      exists (ESend (get_request env e st) :: tail ++ new).
      split; [rewrite Hnew, Hlog, <- app_assoc; reflexivity|].
      split; [|eauto].
      destruct Htail as [->|[(-> & Hlt & _)|(key & value & ->)]]; simpl;
        [exact Hok | | exact Hok].
      destruct Hhead as (rq & tl & ->); [lia|].
      simpl in *. exact Hok.
Qed.

Lemma sleeps_le_sends (l : list Event) :
  sleeps_followed l = true ->
  (count is_sleep l <= count is_send l)%nat
  /\ (forall rq tail, l = ESend rq :: tail ->
        (S (count is_sleep l) <= count is_send l)%nat).
Proof.
  unfold count. induction l as [|ev l IH]; simpl; intros H.
  - split; [lia | intros rq tail Habs; discriminate].
  - destruct ev as [rq'|seconds|key value]; simpl.
    + destruct (IH H) as [IH1 _]. split; [lia | intros; lia].
    + apply andb_prop in H as [H H']. apply andb_prop in H as [_ Hn].
      destruct l as [|[rq'| |] l]; try discriminate.
      destruct (IH H') as [_ IH2]. specialize (IH2 rq' l eq_refl).
      split; [exact IH2 | intros rq tail Habs; discriminate].
    + destruct (IH H) as [IH1 _].
      split; [exact IH1 | intros rq tail Habs; discriminate].
Qed.

(** X4: in what a call of [make_request] adds to the log, every sleep lasts
    one second and is directly followed by the request of the next attempt;
    the call never sleeps after its last attempt, and it sleeps at most
    [retry_count - 1] times. *)
Theorem X4_sleep_only_between_attempts e rc st :
  exists new,
    log (fst (make_request env e rc st)) = log st ++ new
    /\ sleeps_followed new = true
    /\ (count is_sleep new <= Z.to_nat rc - 1)%nat.
Proof.
  destruct (Z.le_gt_cases rc 0) as [Hrc|Hrc].
  - exists []. unfold make_request. rewrite (range_nonpos rc Hrc). simpl.
    split; [now rewrite app_nil_r|]. split; [reflexivity|].
    unfold count. simpl. lia.
  - destruct (attempts_sleeps_followed e rc (Z.to_nat rc) O st)
      as (new & Hlog & Hok & Hhead); [lia|].
    exists new. split; [exact Hlog|]. split; [exact Hok|].
    destruct Hhead as (rq & tail & Hnew); [lia|].
    destruct (sleeps_le_sends new Hok) as [_ Hle].
    specialize (Hle rq tail Hnew).
    destruct (attempts_sends env e rc (range rc) st) as [_ Hhi].
    unfold range in Hhi at 1. rewrite Hlog, count_app, length_range in Hhi.
    lia.
Qed.

End FetcherLog.

Lemma X3_immediate_retry_after_first_401_witness :
  exists rq tail,
    log (fst (make_request (sample_env (always (Http 401 None)))
                execution_endpoint 3
                (init (sample_env (always (Http 401 None))))))
    = log (init (sample_env (always (Http 401 None))))
      ++ ESend (get_request (sample_env (always (Http 401 None)))
                  execution_endpoint
                  (init (sample_env (always (Http 401 None)))))
         :: ESetHeader "X-Auth-Token" (token the_config)
         :: ESend rq :: tail
    /\ req_method rq = GET
    /\ req_url rq
       = req_url (get_request (sample_env (always (Http 401 None)))
                    execution_endpoint
                    (init (sample_env (always (Http 401 None)))))
    /\ req_headers rq
       = <["X-Auth-Token" := token the_config]> (initial_headers the_config).
Proof.
  apply (X3_immediate_retry_after_first_401
           (sample_env (always (Http 401 None))) execution_endpoint 3
           (init (sample_env (always (Http 401 None)))) None).
  - reflexivity.
  - lia.
Defined.

(** * Further properties of the normaliser *)

Section NormalizerRules.

Implicit Types (r : Results) (ed : gmap string json) (c v cps : json).







Lemma contains_not_KeyError (key : string) v : contains key v <> Raise KeyError.
Proof. destruct v; discriminate. Qed.

Lemma getitem_after_contains (key : string) v :
  contains key v = Ok true -> getitem v key <> Raise KeyError.
Proof.
  destruct v; simpl; try discriminate.
  intros H. injection H as H. apply bool_decide_eq_true_1 in H as [x ->].
  discriminate.
Qed.

(** Every subscript of the [graphql] branch is guarded by a membership
    test. *)
Lemma graphql_checkpoints_not_KeyError (data : json) :
  graphql_checkpoints data <> Raise KeyError.
Proof.
  unfold graphql_checkpoints.
  repeat match goal with
         | |- bind (contains ?k ?x) _ <> _ =>
             let H := fresh "Hin" in
             pose proof (contains_not_KeyError k x);
             destruct (contains k x) as [[|]|[|]] eqn:H; simpl;
             try discriminate; try congruence
         | |- bind (getitem ?x ?k) _ <> _ =>
             let H := fresh "Hget" in
             match goal with
             | Hin : contains k x = Ok true |- _ =>
                 pose proof (getitem_after_contains k x Hin)
             end;
             destruct (getitem x k) as [?|[|]] eqn:H; simpl;
             try discriminate; try congruence
         end.
Qed.

Lemma select_source_not_KeyError ed (sources : list string) cps :
  select_source ed sources cps <> Raise KeyError.
Proof.
  induction sources as [|source rest IH]; simpl; [discriminate|].
  destruct (ed !! source) as [data|]; [|exact IH].
  case_ifs; try discriminate; try exact IH.
  pose proof (graphql_checkpoints_not_KeyError data) as Hg.
  destruct (graphql_checkpoints data) as [[c|]|[|]]; simpl;
    try discriminate; try exact IH.
  congruence.
Qed.

Lemma select_source_list ed (sources : list string) cps :
  ed !! "graphql" = None ->
  (exists l, cps = JList l) ->
  exists l, select_source ed sources cps = Ok (JList l).
Proof.
  intros Hg Hcps. induction sources as [|source rest IH]; simpl.
  - destruct Hcps as [l ->]. eauto.
  - destruct (ed !! source) as [data|] eqn:Hd; [|exact IH].
    destruct (String.eqb source "checkpoints" && truthy data).
    { unfold as_list. destruct data; simpl; eauto. }
    destruct (String.eqb source "steps" && truthy data); [eauto|].
    destruct (String.eqb source "graphql") eqn:E; simpl; [|exact IH].
    apply String.eqb_eq in E. subst source. congruence.
Qed.

(** X10: [structure_data] never raises [KeyError], and it raises nothing at
    all when no [graphql] payload is present: whatever the other payloads
    are, it then returns a structure whose checkpoints are a list. *)
Theorem X10_structure_data_raises_only_on_graphql r :
  snd (structure_data r) <> Raise KeyError
  /\ (extracted_data r !! "graphql" = None ->
      exists l,
        snd (structure_data r) = Ok (structured_of (config r) (JList l))).
Proof.
  split.
  - unfold structure_data.
    pose proof (select_source_not_KeyError (extracted_data r) data_sources
                  (JList [])) as Hs.
    destruct (select_source _ _ _) as [cps|[|]]; simpl;
      try discriminate; try congruence.
    destruct (truthy cps); simpl; [|discriminate].
    destruct cps; simpl; discriminate.
  - intros Hg.
    destruct (select_source_list (extracted_data r) data_sources (JList [])
                Hg (ex_intro _ [] eq_refl)) as [l Hl].
    exists l. unfold structure_data. rewrite Hl.
    destruct (truthy (JList l)); reflexivity.
Qed.

End NormalizerRules.



Lemma X10_structure_data_raises_only_on_graphql_witness :
  exists l,
    snd (structure_data (sample_results (<["steps" := JInt 0]> ∅)))
    = Ok (structured_of the_config (JList l)).
Proof.
  apply (X10_structure_data_raises_only_on_graphql
           (sample_results (<["steps" := JInt 0]> ∅))).
  reflexivity.
Defined.

(** * Further properties of a run *)

Section Run.

Context (env : Env).
Implicit Types (e : Endpoint) (st : State) (rc : Z) (r : Results).

(** [structure_data] changes nothing but [structured_data]. *)
Lemma structure_data_frame r :
  fst (structure_data r) = r
  \/ exists s, fst (structure_data r) = set_structured_data (Some s) r.
Proof.
  unfold structure_data.
  destruct (select_source _ _ _) as [cps|x]; [|now left].
  destruct (truthy cps); [|now left].
  destruct (len cps); right; eauto.
Qed.

(** After the probes, [main] changes nothing but [structured_data] and the
    files. *)
Lemma main_results :
  let r1 := results (extract_all_data env (init env)) in
  let r := results (snd (main env)) in
  successful_endpoints r = successful_endpoints r1
  /\ failed_endpoints r = failed_endpoints r1
  /\ extracted_data r = extracted_data r1.
Proof.
  intros r1 r. unfold r, r1, main. clear r r1.
  pose proof (structure_data_frame
                (results (extract_all_data env (init env)))) as Hfr.
  destruct (structure_data _) as [r2 [s|x]]; simpl in Hfr |- *.
  - unfold save_results. simpl.
    destruct (structured_data r2) eqn:E; simpl; rewrite E; simpl;
      destruct Hfr as [->|[s' ->]]; auto.
  - destruct Hfr as [->|[s' ->]]; auto.
Qed.


(** The sweep records one outcome per descriptor, in catalog order. *)
Lemma sweep_outcomes (catalog : list Endpoint) st :
  exists (ls : list string) (lf : list Endpoint),
    successful_endpoints (results (sweep env catalog st))
    = successful_endpoints (results st) ++ ls
    /\ failed_endpoints (results (sweep env catalog st))
       = failed_endpoints (results st) ++ lf
    /\ ls `sublist_of` (name <$> catalog)
    /\ lf `sublist_of` catalog
    /\ (length ls + length lf = length catalog)%nat.
Proof.
  revert st. induction catalog as [|e catalog IH]; intros st.
  - exists [], []. simpl. rewrite !app_nil_r. repeat split; constructor.
  - unfold sweep in *. simpl.
    destruct (IH (fst (make_request env e 3 st)))
      as (ls & lf & Hs & Hf & Hls & Hlf & Hlen).
    rewrite Hs, Hf.
    destruct (make_request_results env e 3 st) as [[data ->] | ->]; simpl.
    + exists (name e :: ls), lf. rewrite <- app_assoc. simpl.
      repeat split; [now apply sublist_skip | now apply sublist_cons | lia].
    + exists ls, (e :: lf). rewrite <- app_assoc. simpl.
      destruct e as [p n d]. simpl in *.
      repeat split; [now apply sublist_cons | now apply sublist_skip | lia].
Qed.

Lemma try_graphql_failed st :
  failed_endpoints (results (try_graphql env st))
  = failed_endpoints (results st).
Proof.
  now destruct (try_graphql_results env st) as [-> | [data ->]].
Qed.

(** X5: the sweep appends exactly one outcome per descriptor of the
    catalog, in catalog order: the names it adds to [successful_endpoints]
    and the descriptors it adds to [failed_endpoints] are subsequences of
    the catalog whose lengths add up to the length of the catalog. In a run,
    the failures are therefore a subsequence of the 19 catalog entries (a
    GraphQL failure is not among them), the successes are a subsequence of
    the catalog names followed by [graphql] at most once, and no name is
    recorded twice. *)
Theorem X5_one_outcome_per_descriptor_in_order :
  (forall (catalog : list Endpoint) st,
     exists (ls : list string) (lf : list Endpoint),
       successful_endpoints (results (sweep env catalog st))
       = successful_endpoints (results st) ++ ls
       /\ failed_endpoints (results (sweep env catalog st))
          = failed_endpoints (results st) ++ lf
       /\ ls `sublist_of` (name <$> catalog)
       /\ lf `sublist_of` catalog
       /\ (length ls + length lf = length catalog)%nat)
  /\ (let r := results (snd (main env)) in
      failed_endpoints r `sublist_of` the_endpoints the_config
      /\ (exists ls,
            ls `sublist_of` (name <$> the_endpoints the_config)
            /\ (length ls + length (failed_endpoints r) = 19)%nat
            /\ (successful_endpoints r = ls
                \/ (successful_endpoints r = ls ++ ["graphql"]
                    /\ (length ls < 3)%nat)))
      /\ NoDup (successful_endpoints r)).
Proof.
  split; [exact sweep_outcomes|].
  intros r. destruct main_results as (Hs & Hf & _). fold r in Hs, Hf.
  rewrite Hs, Hf. clear Hs Hf r.
  destruct (init_catalog env) as [Hnd Hg].
  destruct (sweep_outcomes (endpoints (init env)) (init env))
    as (ls & lf & Hs & Hf & Hls & Hlf & Hlen).
  assert (Hndls : NoDup ls) by exact (sublist_NoDup _ _ Hnd Hls).
  assert (Hgls : "graphql" ∉ ls).
  { intros Hin. apply Hg. eapply elem_of_sublist; eauto. }
  unfold extract_all_data.
  remember (sweep env (endpoints (init env)) (init env)) as st1 eqn:Hst1.
  change (successful_endpoints (results st1) = ls) in Hs.
  change (failed_endpoints (results st1) = lf) in Hf.
  change (length ls + length lf = 19)%nat in Hlen.
  change (lf `sublist_of` the_endpoints the_config) in Hlf.
  change (ls `sublist_of` (name <$> the_endpoints the_config)) in Hls.
  clear Hst1. rewrite Hs.
  destruct (length ls <? 3)%nat eqn:Hlt.
  - rewrite try_graphql_failed, Hf. split; [exact Hlf|].
    apply Nat.ltb_lt in Hlt.
    destruct (try_graphql_results env st1)
      as [-> | [data ->]]; simpl; rewrite Hs.
    + split; [|exact Hndls]. exists ls. auto.
    + split; [exists ls; auto|].
      apply NoDup_app. split; [exact Hndls|]. split.
      * intros x Hx Hx'. apply list_elem_of_singleton in Hx'. now subst.
      * apply NoDup_singleton.
  - rewrite Hf, Hs. split; [exact Hlf|]. split; [|exact Hndls].
    exists ls. auto.
Qed.

Lemma keys_match_success (n : string) (data : json) r :
  keys_match r -> keys_match (add_success n data r).
Proof.
  intros H m. simpl. rewrite elem_of_app, list_elem_of_singleton, <- (H m).
  destruct (decide (n = m)) as [->|Hne].
  - rewrite lookup_insert_eq. split; eauto.
  - rewrite lookup_insert_ne by exact Hne. split; [auto|].
    intros [Hm|Hm]; [exact Hm | congruence].
Qed.

Lemma make_request_keys_match e rc st :
  keys_match (results st) ->
  keys_match (results (fst (make_request env e rc st))).
Proof.
  intros H. destruct (make_request_results env e rc st) as [[data ->] | ->].
  - now apply keys_match_success.
  - exact H.
Qed.

Lemma sweep_keys_match (catalog : list Endpoint) st :
  keys_match (results st) -> keys_match (results (sweep env catalog st)).
Proof.
  revert st. induction catalog as [|e catalog IH]; intros st H; [exact H|].
  unfold sweep in *. simpl. apply IH. now apply make_request_keys_match.
Qed.

Lemma extract_all_data_keys_match st :
  keys_match (results st) -> keys_match (results (extract_all_data env st)).
Proof.
  intros H. unfold extract_all_data.
  pose proof (sweep_keys_match (endpoints st) st H) as Hsw.
  destruct (_ <? 3)%nat; [|exact Hsw].
  destruct (try_graphql_results env (sweep env (endpoints st) st))
    as [-> | [data ->]]; [exact Hsw|].
  now apply keys_match_success.
Qed.

(** X6: the keys of [extracted_data] are exactly the names in
    [successful_endpoints]. Every call of [make_request] and every call of
    [extract_all_data] keeps it so, whatever the descriptor and the server,
    and it holds for the results of every run. *)
Theorem X6_payload_keys_are_successful_names :
  (forall e rc st,
     keys_match (results st) ->
     keys_match (results (fst (make_request env e rc st))))
  /\ (forall st,
        keys_match (results st) ->
        keys_match (results (extract_all_data env st)))
  /\ keys_match (results (snd (main env))).
Proof.
  split; [exact make_request_keys_match|].
  split; [exact extract_all_data_keys_match|].
  destruct main_results as (Hs & _ & Hd).
  intros n. rewrite Hs, Hd. apply extract_all_data_keys_match.
  intros m. simpl. rewrite lookup_empty. split.
  - intros [x Hx]. discriminate.
  - intros Hm. now apply not_elem_of_nil in Hm.
Qed.

End Run.

Section RunBounds.

Context (env : Env).
Implicit Types (e : Endpoint) (st : State) (rc : Z) (r : Results).

Lemma sweep_sends (catalog : list Endpoint) st :
  (count is_send (log st) + length catalog
   <= count is_send (log (sweep env catalog st)))%nat
  /\ (count is_send (log (sweep env catalog st))
      <= count is_send (log st) + 3 * length catalog)%nat.
Proof.
  revert st. induction catalog as [|e catalog IH]; intros st; simpl; [lia|].
  unfold sweep in *. simpl.
  specialize (IH (fst (make_request env e 3 st))).
  destruct (attempts_sends env e 3 (range 3) st) as [Hlo Hhi].
  rewrite length_range in Hlo, Hhi.
  change (Z.to_nat 3) with 3%nat in Hlo, Hhi.
  change (attempts env e 3 (range 3) st) with (make_request env e 3 st)
    in Hlo, Hhi.
  lia.
Qed.

Lemma try_graphql_sends st :
  count is_send (log (try_graphql env st)) = S (count is_send (log st)).
Proof.
  unfold try_graphql, send.
  destruct (transport env (sent st) (graphql_request st)) as [c [b|]| | |];
    simpl; try destruct (c =? 200); simpl;
    rewrite count_app; unfold count; simpl; lia.
Qed.

(** X7: the number of requests of [extract_all_data] is bounded: at least
    one and at most three per descriptor of the catalog, plus at most one
    for the GraphQL probe. A run of [main] sends between 19 and 58
    requests. *)
Theorem X7_request_bounds :
  (forall st,
     (count is_send (log st) + length (endpoints st)
      <= count is_send (log (extract_all_data env st)))%nat
     /\ (count is_send (log (extract_all_data env st))
         <= count is_send (log st) + 3 * length (endpoints st) + 1)%nat)
  /\ (19 <= count is_send (log (snd (main env))))%nat
  /\ (count is_send (log (snd (main env))) <= 58)%nat.
Proof.
  assert (H : forall st,
     (count is_send (log st) + length (endpoints st)
      <= count is_send (log (extract_all_data env st)))%nat
     /\ (count is_send (log (extract_all_data env st))
         <= count is_send (log st) + 3 * length (endpoints st) + 1)%nat).
  { intros st. unfold extract_all_data.
    destruct (sweep_sends (endpoints st) st) as [Hlo Hhi].
    destruct (_ <? 3)%nat; [rewrite try_graphql_sends|]; lia. }
  split; [exact H|].
  rewrite main_log. destruct (H (init env)) as [Hlo Hhi].
  change (length (endpoints (init env))) with 19%nat in Hlo, Hhi.
  change (count is_send (log (init env))) with 0%nat in Hlo, Hhi.
  lia.
Qed.





End RunBounds.


Section RunFailure.

Context (env : Env).
Implicit Types (e : Endpoint) (st : State) (rc : Z) (r : Results).







End RunFailure.



Lemma X6_payload_keys_are_successful_names_witness :
  keys_match
    (results (fst (make_request
                     (sample_env (always (Http 200 (Some (JList [])))))
                     execution_endpoint 3
                     (init (sample_env (always (Http 200 (Some (JList []))))))))).
Proof.
  apply (proj1 (X6_payload_keys_are_successful_names
                  (sample_env (always (Http 200 (Some (JList []))))))).
  intros n. simpl. split.
  - intros [x Hx]. vm_compute in Hx. discriminate.
  - intros Hn. inversion Hn.
Defined.

Section RunRequests.

Context (env : Env) (cfg : Config) (catalog : list Endpoint).
Implicit Types (e : Endpoint) (st : State) (rc : Z) (r : Results).









End RunRequests.

Section RunRequestsMain.

Context (env : Env).





End RunRequestsMain.

Section NormalizerComposition.

Implicit Types (r : Results).

Lemma select_source_three_payloads (ed1 ed2 : gmap string json) (cps : json) :
  ed1 !! "checkpoints" = ed2 !! "checkpoints" ->
  ed1 !! "steps" = ed2 !! "steps" ->
  ed1 !! "graphql" = ed2 !! "graphql" ->
  select_source ed1 data_sources cps = select_source ed2 data_sources cps.
Proof.
  intros Hc Hs Hg. unfold data_sources. simpl. rewrite Hc, Hs, Hg.
  destruct (ed2 !! "checkpoints") as [c|]; simpl;
    [destruct (truthy c); [reflexivity|]|];
    (destruct (ed2 !! "steps") as [s|]; simpl;
     [destruct (truthy s); [reflexivity|]|]);
    destruct (ed1 !! "journey_steps"), (ed2 !! "journey_steps"),
      (ed1 !! "testsuite"), (ed2 !! "testsuite"),
      (ed1 !! "execution_journey"), (ed2 !! "execution_journey");
    reflexivity.
Qed.

(** X11: [structure_data] is idempotent: calling it again on the results it
    left gives the same results and the same returned structure or
    exception. *)
Theorem X11_structure_data_idempotent r :
  structure_data (fst (structure_data r)) = structure_data r.
Proof.
  unfold structure_data.
  destruct (select_source (extracted_data r) data_sources (JList []))
    as [cps|x] eqn:Hsel; cbn [fst]; [|now rewrite Hsel].
  destruct (truthy cps) eqn:Ht; cbn [fst]; [|now rewrite Hsel, Ht].
  destruct (len cps) as [n|x] eqn:Hlen;
    cbn [fst extracted_data config set_structured_data];
    now rewrite Hsel, Ht, Hlen.
Qed.

(** X15: what [structure_data] returns depends on the configuration and on
    the payloads stored under [checkpoints], [steps] and [graphql] only: two
    results that agree on these give the same returned structure or
    exception, whatever they hold under [journey_steps], [testsuite],
    [execution_journey] or any other name, and whatever their lists of
    successful and failed endpoints. *)
Theorem X15_only_three_payloads_matter r1 r2 :
  config r1 = config r2 ->
  extracted_data r1 !! "checkpoints" = extracted_data r2 !! "checkpoints" ->
  extracted_data r1 !! "steps" = extracted_data r2 !! "steps" ->
  extracted_data r1 !! "graphql" = extracted_data r2 !! "graphql" ->
  snd (structure_data r1) = snd (structure_data r2).
Proof.
  intros Hcfg Hc Hs Hg.
  apply structure_data_ext; [exact Hcfg|].
  now apply select_source_three_payloads.
Qed.

End NormalizerComposition.

Lemma X15_only_three_payloads_matter_witness :
  snd (structure_data
         (sample_results
            (<["testsuite" := JList [JInt 1]]>
             (<["steps" := JList [JInt 2]]> ∅))))
  = snd (structure_data (sample_results (<["steps" := JList [JInt 2]]> ∅))).
Proof.
  apply (X15_only_three_payloads_matter
           (sample_results
              (<["testsuite" := JList [JInt 1]]>
               (<["steps" := JList [JInt 2]]> ∅)))
           (sample_results (<["steps" := JList [JInt 2]]> ∅)));
    reflexivity.
Defined.
